(** * Bundle-size tracking scripts: a shallow embedding and its properties

    The development follows the two scripts of the repository:

    - [scripts/generate-baseline.py]: the name normaliser [normalize] and the
      baseline builder [main];
    - [analyze_report.py]: the report summariser.

    Python [str] values are lists of characters, Python [int] values are [Z],
    the [chunks] dictionary of the baseline builder is a finite map, and the
    effects of the scripts (standard output, the baseline file, raised
    exceptions) are threaded explicitly.  Characters are 8-bit: the pattern
    of the normaliser names ASCII characters only, and all the others behave
    alike.  [os.path] is [posixpath]. *)

From Stdlib Require Import ZArith QArith Qabs Ascii String List Lia.
From Stdlib Require Import Permutation Sorted.
From stdpp Require Import gmap strings list fin_maps.

Local Open Scope Z_scope.

(** Python strings. *)
Abbreviation str := (list ascii).

(** A string literal as a Python string. *)
Definition s (x : string) : str := list_ascii_of_string x.

(* ===================================================================== *)
(** * The name normaliser ([scripts/generate-baseline.py], [normalize])   *)
(* ===================================================================== *)

Module Normalizer.

(** ** [os.path.splitext] (POSIX flavour: [sep = "/"], no [altsep]) *)

(** [p.rfind(c)]: index of the last occurrence of [c], [-1] when absent. *)
Fixpoint rfind (c : ascii) (p : str) : Z :=
  match p with
  | [] => -1
  | x :: t =>
      let r := rfind c t in
      if 0 <=? r then r + 1 else if Ascii.eqb x c then 0 else -1
  end.

(** [p[i:j]] for [0 <= i]. *)
Definition slice (p : str) (i j : Z) : str :=
  take (Z.to_nat (j - i)) (drop (Z.to_nat i) p).

Definition non_dot (c : ascii) : bool := negb (Ascii.eqb c ".").

(** [posixpath.splitext]: the extension starts at the last dot, provided
    that dot comes after the last separator and some character of the file
    name before it is not a dot (leading dots are skipped by the [while]
    loop, which returns at the first character different from ["."]). *)
Definition splitext (p : str) : str * str :=
  let sepIndex := rfind "/" p in
  let dotIndex := rfind "." p in
  if (sepIndex <? dotIndex) && existsb non_dot (slice p (sepIndex + 1) dotIndex)
  then (take (Z.to_nat dotIndex) p, drop (Z.to_nat dotIndex) p)
  else (p, []).

(** ** The pattern [^(.*?)(?:-[A-Z0-9])?-[A-Za-z0-9_-]{6,}$] *)

Definition newline : ascii := "010".

Definition in_range (lo hi : nat) (c : ascii) : bool :=
  (lo <=? nat_of_ascii c)%nat && (nat_of_ascii c <=? hi)%nat.

Definition is_upper : ascii -> bool := in_range 65 90.
Definition is_lower : ascii -> bool := in_range 97 122.
Definition is_digit : ascii -> bool := in_range 48 57.

(** [[A-Z0-9]] *)
Definition is_marker (c : ascii) : bool := is_upper c || is_digit c.

(** [[A-Za-z0-9_-]] *)
Definition is_hash (c : ascii) : bool :=
  is_upper c || is_lower c || is_digit c || Ascii.eqb c "_" || Ascii.eqb c "-".

(** [$] without [re.MULTILINE]: the end of the string, or just before a
    newline that is the last character. *)
Definition at_end (x : str) : bool :=
  match x with
  | [] => true
  | [c] => Ascii.eqb c newline
  | _ => false
  end.

(** [[A-Za-z0-9_-]{n,}$]: once [n] characters of the class are consumed the
    quantifier may stop (and [$] must hold) or take one more character. *)
Fixpoint hash_tail (n : nat) (x : str) : bool :=
  match n with
  | O =>
      at_end x ||
      match x with
      | c :: t => is_hash c && hash_tail O t
      | [] => false
      end
  | S n' =>
      match x with
      | c :: t => is_hash c && hash_tail n' t
      | [] => false
      end
  end.

(** [-[A-Za-z0-9_-]{6,}$] *)
Definition token (x : str) : bool :=
  match x with
  | c :: t => Ascii.eqb c "-" && hash_tail 6 t
  | [] => false
  end.

(** [(?:-[A-Z0-9])?-[A-Za-z0-9_-]{6,}$]: the optional group is tried
    first, then skipped. *)
Definition tail_matches (x : str) : bool :=
  match x with
  | d :: m :: t => Ascii.eqb d "-" && is_marker m && token t
  | _ => false
  end || token x.

(** [re.match] of the whole pattern, returning [group(1)]: the lazy [.*?]
    grows by one character other than a newline at a time, and the first
    length at which the rest of the pattern matches wins. *)
Fixpoint re_match (x : str) : option str :=
  if tail_matches x then Some []
  else
    match x with
    | [] => None
    | c :: t =>
        if Ascii.eqb c newline then None
        else option_map (cons c) (re_match t)
    end.

(** ** [normalize] *)

Definition normalize (name : str) : str :=
  let '(base, ext) := splitext name in
  let base :=
    match re_match base with
    | Some g => g
    | None => base
    end in
  base ++ ext.

End Normalizer.

Import Normalizer.

(* ===================================================================== *)
(** * The baseline builder ([scripts/generate-baseline.py], [main])       *)
(* ===================================================================== *)

Module BaselineBuilder.

(** What [os.path.isfile] and [os.path.getsize] report for a directory
    entry. *)
Inductive kind :=
  | RegularFile (size : Z)
  | NotAFile.

(** One name returned by [os.listdir(ASSETS_DIR)]. *)
Record dirent := { d_name : str; d_kind : kind }.

(** The document handed to [json.dump]. *)
Record baseline := {
  generatedAt : str;
  chunks : gmap str Z;
  total : Z
}.

(** Content of the file at [BASELINE_PATH]: any text, or a dumped
    baseline document. *)
Inductive content :=
  | Text (t : str)
  | Dumped (b : baseline).

(** The part of the file system the script looks at: [assets_dir] is
    [None] when [os.path.isdir(ASSETS_DIR)] is false, and [baseline_file]
    is [None] when nothing exists at [BASELINE_PATH]. *)
Record filesystem := {
  assets_dir : option (list dirent);
  baseline_file : option content
}.

(** Lines printed by [main]. *)
Inductive line :=
  | AssetsNotFound
  | BaselineGenerated
  | TotalChunks (n : nat)
  | TotalSize (n : Z).

(** [x.endswith(suffix)] *)
Definition endswith (x suffix : str) : bool :=
  (length suffix <=? length x)%nat &&
  bool_decide (drop (length x - length suffix) x = suffix).

Definition tracked (name : str) : bool :=
  endswith name (s ".js") || endswith name (s ".css").

(** One iteration of the loop over [os.listdir(ASSETS_DIR)]. *)
Definition scan_step (chunks : gmap str Z) (e : dirent) : gmap str Z :=
  if negb (tracked (d_name e)) then chunks
  else
    match d_kind e with
    | NotAFile => chunks
    | RegularFile size =>
        let norm := normalize (d_name e) in
        <[norm := default 0 (chunks !! norm) + size]> chunks
    end.

Definition scan (entries : list dirent) : gmap str Z :=
  fold_left scan_step entries ∅.

(** [sum(chunks.values())] *)
Definition sum_values (chunks : gmap str Z) : Z :=
  map_fold (fun _ v acc => acc + v) 0 chunks.

(** [main], with the clock reading [now] as an argument; the result is the
    file system afterwards, the printed lines and the returned value, which
    [exit(main())] turns into the exit status. *)
Definition main (now : str) (fs : filesystem) : filesystem * list line * Z :=
  match assets_dir fs with
  | None => (fs, [AssetsNotFound], 1)
  | Some entries =>
      let chunks := scan entries in
      let baseline :=
        {| generatedAt := now; chunks := chunks; total := sum_values chunks |} in
      ({| assets_dir := assets_dir fs; baseline_file := Some (Dumped baseline) |},
       [BaselineGenerated; TotalChunks (size chunks); TotalSize (total baseline)],
       0)
  end.

End BaselineBuilder.

(* ===================================================================== *)
(** * The report summariser ([analyze_report.py])                         *)
(* ===================================================================== *)

Module ReportSummarizer.

(** A JSON number as [json.load] returns it: an [int] of any size, or a
    [float], whose value is kept as an exact rational (the rounding of
    floats is not represented). *)
Inductive number :=
  | Int (z : Z)
  | Float (q : Q).

(** The report document read by the script.  Every key is looked up with
    [.get], so every field may be absent; byte counts are integers and
    [deltaPct] is a number. *)
Record chunk := {
  status : option str;
  baselineBytes : option Z;
  currentBytes : option Z;
  deltaPct : option number
}.

Record report := {
  r_status : option str;
  r_baseline_total : option Z;
  r_current_total : option Z;
  r_chunks : list (str * chunk)
}.

(** What is found at [.bundlesize.report.json]. *)
Inductive report_file :=
  | Missing
  | Malformed (text : str)
  | Stored (r : report).

(** The exceptions the script can raise; all derive from [Exception]. *)
Inductive exn :=
  | FileNotFoundError
  | JSONDecodeError (text : str)
  | ZeroDivisionError
  | OverflowError
  | KeyError (key : str).

(** The printed lines, one constructor per [print] call of the script,
    carrying the values interpolated into the line. *)
Inductive line :=
  | OverallStatus (st : str)
  | TotalBaseline (n : Z)
  | TotalCurrent (n : Z)
  | TotalDelta (d : Z) (pct : number)
  | Blank
  | FailingHeader
  | ChunkLine (name st : str) (baseline_bytes current_bytes delta : Z)
      (pct : number)
  | ErrorReadingReport (e : exn).

(** Computations that print and may raise. *)
Definition M (A : Type) : Type := list line * (exn + A).

Definition ret {A} (a : A) : M A := ([], inr a).
Definition raise {A} (e : exn) : M A := ([], inl e).
Definition print (l : line) : M unit := ([l], inr tt).

Definition bind {A B} (m : M A) (k : A -> M B) : M B :=
  match m with
  | (out, inl e) => (out, inl e)
  | (out, inr a) => let '(out', r) := k a in (out ++ out', r)
  end.

Notation "x <- m ;; k" := (bind m (fun x => k))
  (at level 100, m at next level, right associativity).
Notation "m ;;; k" := (bind m (fun _ => k))
  (at level 100, right associativity).

Fixpoint for_each {A} (l : list A) (body : A -> M unit) : M unit :=
  match l with
  | [] => ret tt
  | a :: l' => body a ;;; for_each l' body
  end.

(** [open(...)] followed by [json.load(f)]. *)
Definition load (f : report_file) : M report :=
  match f with
  | Missing => raise FileNotFoundError
  | Malformed text => raise (JSONDecodeError text)
  | Stored r => ret r
  end.

(** A value rounds to a float as long as its magnitude is below
    [2^1024 - 2^970], half a unit in the last place above the largest
    float; from there on the conversion overflows. *)
Definition float_limit : Z := 2 ^ 1024 - 2 ^ 970.

Definition too_large (q : Q) : bool :=
  Qle_bool (inject_Z float_limit) (Qabs q).

(** [a / b] on integers: the quotient as a float, [ZeroDivisionError] for
    a zero divisor and [OverflowError] for a quotient too large for a
    float. *)
Definition truediv (a b : Z) : M Q :=
  match b with
  | Z0 => raise ZeroDivisionError
  | Zpos p => if too_large (a # p) then raise OverflowError else ret (a # p)
  | Zneg p => if too_large (- a # p) then raise OverflowError else ret (- a # p)
  end.

(** The format [.1%] of an f-string: an [int] is converted to a float
    first, which raises [OverflowError] when it is too large; a float is
    formatted as it is. *)
Definition format_pct (x : number) : M number :=
  match x with
  | Int z => if too_large (inject_Z z) then raise OverflowError else ret x
  | Float _ => ret x
  end.

(** [list.sort(key=key, reverse=True)]: a stable sort, elements with equal
    keys keep their relative order also when reversed. *)
Fixpoint insert_desc {A} (key : A -> Z) (x : A) (l : list A) : list A :=
  match l with
  | [] => [x]
  | y :: l' =>
      if key x <? key y then y :: insert_desc key x l' else x :: l
  end.

Definition sort_desc {A} (key : A -> Z) (l : list A) : list A :=
  foldr (insert_desc key) [] l.

Definition is_failing (c : chunk) : bool :=
  match status c with
  | Some st => bool_decide (st = s "fail") || bool_decide (st = s "warn")
  | None => false
  end.

(** The sort key of line 30. *)
Definition abs_delta (x : str * chunk) : Z :=
  Z.abs (default 0 (currentBytes x.2) - default 0 (baselineBytes x.2)).

Definition failing_chunks (r : report) : list (str * chunk) :=
  sort_desc abs_delta (List.filter (fun x => is_failing x.2) (r_chunks r)).

Definition total_delta_pct (total_baseline total_delta : Z) : M number :=
  if 0 <? total_baseline
  then q <- truediv total_delta total_baseline ;; ret (Float q)
  else ret (Int 0).

Definition print_chunk (x : str * chunk) : M unit :=
  let '(name, chunk) := x in
  st <- match status chunk with
        | Some st => ret st
        | None => raise (KeyError (s "status"))
        end ;;
  let baseline_bytes := default 0 (baselineBytes chunk) in
  let current_bytes := default 0 (currentBytes chunk) in
  let delta := current_bytes - baseline_bytes in
  let delta_pct := default (Int 0) (deltaPct chunk) in
  shown <- format_pct delta_pct ;;
  print (ChunkLine name st baseline_bytes current_bytes delta shown).

(** The body of the [try] block. *)
Definition body (f : report_file) : M unit :=
  report <- load f ;;
  let total_baseline := default 0 (r_baseline_total report) in
  let total_current := default 0 (r_current_total report) in
  let total_delta := total_current - total_baseline in
  pct <- total_delta_pct total_baseline total_delta ;;
  print (OverallStatus (default (s "unknown") (r_status report))) ;;;
  print (TotalBaseline total_baseline) ;;;
  print (TotalCurrent total_current) ;;;
  (shown <- format_pct pct ;; print (TotalDelta total_delta shown)) ;;;
  print Blank ;;;
  print FailingHeader ;;;
  for_each (take 50 (failing_chunks report)) print_chunk.

(** The whole script: the [except Exception] handler prints one line, and
    in either case the interpreter reaches the end of the module and exits
    with status 0. *)
Definition script (f : report_file) : list line * Z :=
  match body f with
  | (out, inl e) => (out ++ [ErrorReadingReport e], 0)
  | (out, inr _) => (out, 0)
  end.

End ReportSummarizer.

(* ===================================================================== *)
(** * The snapshot comparator                                             *)
(* ===================================================================== *)

Module Comparator.

(** Modelled from the spec: the comparator/classifier has no source file in
    the repository; this module follows sections 3, 4.3 and 9 of the
    specification.  A status is one of pass, warn and fail. *)
Inductive status := Pass | Warn | Fail.

(** Modelled from the spec: a threshold, expressible as a percentage delta
    and/or an absolute byte delta. *)
Record threshold := { pct : option Q; bytes : option Z }.

(** Modelled from the spec: the warn threshold and the stricter fail
    threshold. *)
Record config := { warn : threshold; fail : threshold }.

(** Modelled from the spec: the result for one chunk. *)
Record ChunkResult := {
  cr_status : status;
  baselineBytes : Z;
  currentBytes : Z;
  deltaPct : Q
}.

(** Modelled from the spec: [deltaPct = delta / baselineBytes], with the
    new-chunk value +100% when [baselineBytes] is 0. *)
Definition delta_pct (baseline current : Z) : Q :=
  match baseline with
  | Zpos p => (current - baseline) # p
  | Zneg p => (baseline - current) # p
  | Z0 => 1%Q
  end.

(** Modelled from the spec: a threshold is breached when the percentage
    delta or the byte delta exceeds it; either breach is sufficient. *)
Definition breaches (t : threshold) (delta : Z) (dpct : Q) : bool :=
  match pct t with
  | Some p => negb (Qle_bool dpct p)
  | None => false
  end ||
  match bytes t with
  | Some b => b <? delta
  | None => false
  end.

(** Modelled from the spec: [fail] if the fail threshold is breached,
    [warn] if only the warn threshold is, otherwise [pass]. *)
Definition classify (cfg : config) (baseline current : Z) : ChunkResult :=
  let delta := current - baseline in
  let dpct := delta_pct baseline current in
  {| cr_status :=
       if breaches (fail cfg) delta dpct then Fail
       else if breaches (warn cfg) delta dpct then Warn
       else Pass;
     baselineBytes := baseline;
     currentBytes := current;
     deltaPct := dpct |}.

End Comparator.

(* ===================================================================== *)
(** * Vocabulary of the statements                                        *)
(* ===================================================================== *)

(** The definitions of this part are not code of the scripts; the
    properties below are stated with them. *)

Module Vocabulary.
Import BaselineBuilder ReportSummarizer.

(** The bytes an entry adds to the snapshot: its size when it is a regular
    file with a tracked ending, nothing otherwise. *)
Definition counted (e : dirent) : Z :=
  if tracked (d_name e) then
    match d_kind e with
    | RegularFile size => size
    | NotAFile => 0
    end
  else 0.

Definition counted_bytes (entries : list dirent) : Z :=
  foldr (fun e acc => counted e + acc) 0 entries.

(** Entries that add no byte, or that belong to another chunk than [k]. *)
Definition elsewhere (k : str) (e : dirent) : Prop :=
  counted e = 0 \/ normalize (d_name e) <> k.

(** The percentage shown on the total line: the quotient as a float for a
    positive baseline total, the integer 0 otherwise. *)
Definition overall_pct (total_baseline total_delta : Z) : number :=
  if 0 <? total_baseline
  then Float (total_delta # Z.to_pos total_baseline)
  else Int 0.

(** The overall quotient is not too large for a float. *)
Definition total_fits (r : report) : bool :=
  let total_baseline := default 0 (r_baseline_total r) in
  let total_delta := default 0 (r_current_total r) - total_baseline in
  negb ((0 <? total_baseline) &&
        too_large (total_delta # Z.to_pos total_baseline)).

(** The [deltaPct] of a chunk can be shown as a percentage: it is absent,
    a float, or an integer that is not too large for a float. *)
Definition pct_fits (c : chunk) : bool :=
  match ReportSummarizer.deltaPct c with
  | Some (Int z) => negb (too_large (inject_Z z))
  | _ => true
  end.

(** The six lines that come first in the summary of a report. *)
Definition header_lines (r : report) : list ReportSummarizer.line :=
  let total_baseline := default 0 (r_baseline_total r) in
  let total_current := default 0 (r_current_total r) in
  [ OverallStatus (default (s "unknown") (r_status r));
    TotalBaseline total_baseline;
    TotalCurrent total_current;
    TotalDelta (total_current - total_baseline)
      (overall_pct total_baseline (total_current - total_baseline));
    Blank; FailingHeader ].

(** The line printed for a chunk that passed the filter. *)
Definition chunk_line (x : str * chunk) : ReportSummarizer.line :=
  ChunkLine x.1 (default [] (status x.2))
    (default 0 (ReportSummarizer.baselineBytes x.2))
    (default 0 (ReportSummarizer.currentBytes x.2))
    (default 0 (ReportSummarizer.currentBytes x.2) -
     default 0 (ReportSummarizer.baselineBytes x.2))
    (default (Int 0) (ReportSummarizer.deltaPct x.2)).

(** The lines of the chunks of a list, up to the first chunk whose
    [deltaPct] cannot be shown, where the error line stands instead. *)
Fixpoint lines_until_overflow (l : list (str * chunk))
    : list ReportSummarizer.line :=
  match l with
  | [] => []
  | x :: l' =>
      if pct_fits x.2 then chunk_line x :: lines_until_overflow l'
      else [ErrorReadingReport OverflowError]
  end.

(** Descending order of a sort key. *)
Definition descending {A} (key : A -> Z) (x y : A) : Prop := key y <= key x.



(** The pattern strips the stem of [x], and what is left of the stem has
    nothing but dots after its last separator. *)
Definition stripped_to_dots (x : str) : bool :=
  match re_match (splitext x).1 with
  | Some p => negb (existsb non_dot (drop (Z.to_nat (rfind "/" p + 1)) p))
  | None => false
  end.

(** The extension of [x] itself matches the pattern. *)
Definition ext_matches (x : str) : bool :=
  match re_match (splitext x).2 with
  | Some _ => true
  | None => false
  end.

(** Entries the loop counts: regular files with a tracked ending. *)
Definition is_counted (e : dirent) : bool :=
  tracked (d_name e) &&
  match d_kind e with
  | RegularFile _ => true
  | NotAFile => false
  end.

(** The counted entries of identity [k]. *)
Definition of_identity (k : str) (e : dirent) : bool :=
  is_counted e && bool_decide (normalize (d_name e) = k).

(** The bytes of the counted entries of identity [k]. *)
Definition bytes_of_identity (k : str) (entries : list dirent) : Z :=
  counted_bytes (List.filter (of_identity k) entries).

(** The chunks of a report that pass the filter of line 26, in the order
    of the document. *)
Definition failing_in_order (r : report) : list (str * chunk) :=
  List.filter (fun x => is_failing x.2) (r_chunks r).

End Vocabulary.

Import Vocabulary.

(* ===================================================================== *)
(** * Properties of the name normaliser                                   *)
(* ===================================================================== *)

(** ** Facts about [rfind] and [splitext] *)

Ltac split_tests :=
  repeat match goal with
  | |- context [ ?a <=? ?b ] => destruct (Z.leb_spec a b)
  | |- context [ ?a <? ?b ] => destruct (Z.ltb_spec a b)
  | |- context [ Ascii.eqb ?a ?b ] => destruct (Ascii.eqb_spec a b)
  end.

Section RfindFacts.
Variable c : ascii.

Lemma rfind_lower (p : str) : -1 <= rfind c p.
Proof. induction p as [|x t IH]; simpl; [lia|]. split_tests; lia. Qed.

Lemma rfind_upper (p : str) : rfind c p < Z.of_nat (length p).
Proof.
  induction p as [|x t IH]; simpl; [lia|].
  pose proof (rfind_lower t). split_tests; lia.
Qed.

Lemma rfind_absent (p : str) : c ∉ p -> rfind c p = -1.
Proof.
  induction p as [|x t IH]; simpl; [done|].
  intros [Hx Ht]%not_elem_of_cons. rewrite (IH Ht). simpl.
  destruct (Ascii.eqb_spec x c); congruence.
Qed.

Lemma rfind_app_absent (p t : str) : c ∉ t -> rfind c (p ++ t) = rfind c p.
Proof.
  intros Ht. induction p as [|x p IH]; simpl.
  - by apply rfind_absent.
  - by rewrite IH.
Qed.

Lemma rfind_app_last (p r : str) :
  c ∉ r -> rfind c (p ++ c :: r) = Z.of_nat (length p).
Proof.
  intros Hr. induction p as [|x p IH]; simpl.
  - rewrite (rfind_absent r Hr). simpl. by rewrite Ascii.eqb_refl.
  - rewrite IH. split_tests; lia.
Qed.

Lemma rfind_drop (p : str) (n : nat) :
  rfind c p < Z.of_nat n -> c ∉ drop n p.
Proof.
  revert n; induction p as [|x t IH]; intros n; simpl.
  - rewrite drop_nil. intros _. apply not_elem_of_nil.
  - pose proof (rfind_lower t). destruct n as [|n]; simpl.
    + split_tests; try lia. intros _. apply not_elem_of_cons.
      split; [congruence|]. apply (IH 0%nat). lia.
    + intros H1. apply IH. revert H1. split_tests; lia.
Qed.

Lemma rfind_at (p : str) (n : nat) :
  rfind c p = Z.of_nat n -> exists r, drop n p = c :: r /\ c ∉ r.
Proof.
  revert n; induction p as [|x t IH]; intros n; simpl; [lia|].
  pose proof (rfind_lower t).
  destruct (Z.leb_spec 0 (rfind c t)).
  - destruct n as [|n]; [lia|]. intros Hn. simpl. apply IH. lia.
  - destruct (Ascii.eqb_spec x c) as [->|]; [|lia].
    destruct n as [|n]; [|lia]. intros _. exists t. split; [done|].
    change t with (drop 0 t). apply rfind_drop. lia.
Qed.
End RfindFacts.

Lemma splitext_app (p : str) : (splitext p).1 ++ (splitext p).2 = p.
Proof.
  unfold splitext. case_match; simpl.
  - apply take_drop.
  - apply app_nil_r.
Qed.

(** The extension is empty, or a dot followed by characters among which
    there is neither a dot nor a separator. *)
Lemma splitext_ext (p : str) :
  (splitext p).2 = [] \/
  exists r, (splitext p).2 = "."%char :: r /\ ("."%char ∉ r) /\ ("/"%char ∉ r).
Proof.
  unfold splitext.
  destruct (_ && _) eqn:E; simpl; [right|by left].
  apply andb_true_iff in E as [E _]. apply Z.ltb_lt in E.
  pose proof (rfind_lower "/" p).
  destruct (rfind_at "." p (Z.to_nat (rfind "." p))) as (r & Hr & Hdot); [lia|].
  exists r. split_and!; [done|done|].
  assert (H1 : "/"%char ∉ drop (Z.to_nat (rfind "." p)) p)
    by (apply rfind_drop; lia).
  rewrite Hr in H1. by apply not_elem_of_cons in H1 as [_ ?].
Qed.

(** Splitting again after the stem was cut short: the dot of the extension
    is still the last dot, and only the leading-dots test can change. *)
Lemma splitext_stem_ext (p r : str) :
  "."%char ∉ r -> "/"%char ∉ r ->
  splitext (p ++ "."%char :: r) =
    if existsb non_dot (drop (Z.to_nat (rfind "/" p + 1)) p)
    then (p, "."%char :: r) else (p ++ "."%char :: r, []).
Proof.
  intros Hdot Hsep. unfold splitext.
  rewrite (rfind_app_last "." p r Hdot).
  rewrite (rfind_app_absent "/" p ("."%char :: r))
    by (apply not_elem_of_cons; split; [discriminate|done]).
  pose proof (rfind_lower "/" p). pose proof (rfind_upper "/" p).
  destruct (Z.ltb_spec (rfind "/" p) (Z.of_nat (length p))); [|lia].
  simpl. unfold slice.
  rewrite Nat2Z.id, drop_app_le by lia.
  rewrite take_app_le by (rewrite length_drop; lia).
  rewrite take_ge by (rewrite length_drop; lia).
  rewrite take_app_length, drop_app_length. done.
Qed.

(** Cutting characters that are neither dots nor separators off a name
    without extension leaves a name without extension. *)
Lemma splitext_no_ext_prefix (p t : str) :
  "."%char ∉ t -> "/"%char ∉ t ->
  (splitext (p ++ t)).2 = [] -> splitext p = (p, []).
Proof.
  intros Hdot Hsep. unfold splitext.
  rewrite (rfind_app_absent "." p t Hdot), (rfind_app_absent "/" p t Hsep).
  pose proof (rfind_upper "." p). pose proof (rfind_lower "/" p).
  assert (Hs : rfind "/" p < rfind "." p ->
    slice (p ++ t) (rfind "/" p + 1) (rfind "." p) =
    slice p (rfind "/" p + 1) (rfind "." p)).
  { intros Hlt. unfold slice. rewrite drop_app_le by lia.
    rewrite take_app_le by (rewrite length_drop; lia). done. }
  destruct (Z.ltb_spec (rfind "/" p) (rfind "." p)); [|done].
  rewrite Hs by done. simpl.
  destruct (existsb _ _); simpl; [|done].
  intros Hnil. apply (f_equal length) in Hnil.
  rewrite length_drop, length_app in Hnil. simpl in Hnil. lia.
Qed.

(** ** Facts about the pattern *)

Lemma is_marker_hash (c : ascii) : is_marker c = true -> is_hash c = true.
Proof.
  unfold is_marker, is_hash.
  destruct (is_upper c), (is_lower c), (is_digit c); simpl; congruence.
Qed.

Lemma is_hash_dash : is_hash "-" = true.
Proof. reflexivity. Qed.

Lemma hash_tail_weaken (n : nat) (x : str) :
  hash_tail (S n) x = true -> hash_tail n x = true.
Proof.
  revert x; induction n as [|n IH]; intros [|c t]; simpl; try done.
  - intros ->. apply orb_true_r.
  - intros [Hc Ht]%andb_true_iff. rewrite Hc. simpl. by apply IH.
Qed.

Lemma hash_tail_0 (n : nat) (x : str) :
  hash_tail n x = true -> hash_tail 0 x = true.
Proof. induction n; [done|]. intros H. by apply IHn, hash_tail_weaken. Qed.

(** Every character of a matched tail is in the class of the token, except
    for a final newline. *)
Lemma hash_tail_chars (n : nat) (x : str) :
  hash_tail n x = true ->
  Forall (fun c => is_hash c = true \/ c = newline) x.
Proof.
  intros H%hash_tail_0. induction x as [|c t IH]; [constructor|].
  simpl in H. apply orb_true_iff in H as [H|[Hc Ht]%andb_true_iff].
  - destruct t; [|done]. apply Ascii.eqb_eq in H. constructor; [by right|constructor].
  - constructor; [by left|by apply IH].
Qed.

(** A matched tail without newline can be continued by another matched
    tail: the token simply gets longer. *)
Lemma hash_tail_app (n : nat) (x t : str) :
  hash_tail n x = true -> newline ∉ x -> hash_tail 0 t = true ->
  hash_tail n (x ++ t) = true.
Proof.
  revert n; induction x as [|c x IH]; intros n Hx Hnl Ht.
  - destruct n; [done|]. done.
  - apply not_elem_of_cons in Hnl as [Hc Hnl].
    destruct n as [|n]; simpl in *.
    + apply orb_true_iff in Hx as [Hx|[Hh Hx]%andb_true_iff].
      * destruct x; [|done]. apply Ascii.eqb_eq in Hx. congruence.
      * rewrite Hh, (IH 0%nat) by done. simpl. apply orb_true_r.
    + apply andb_true_iff in Hx as [Hh Hx]. rewrite Hh. simpl. by apply IH.
Qed.

Lemma token_hash_tail (x : str) : token x = true -> hash_tail 0 x = true.
Proof.
  destruct x as [|c t]; simpl; [done|].
  intros [->%Ascii.eqb_eq Ht]%andb_true_iff.
  rewrite is_hash_dash. rewrite (hash_tail_0 6 t Ht). apply orb_true_r.
Qed.

Lemma token_app (x t : str) :
  token x = true -> newline ∉ x -> hash_tail 0 t = true ->
  token (x ++ t) = true.
Proof.
  destruct x as [|c x]; simpl; [done|].
  intros [Hc Hx]%andb_true_iff [_ Hnl]%not_elem_of_cons Ht.
  rewrite Hc. simpl. by apply hash_tail_app.
Qed.

Lemma tail_matches_hash_tail (x : str) :
  tail_matches x = true -> hash_tail 0 x = true.
Proof.
  unfold tail_matches. intros [H|H]%orb_true_iff; [|by apply token_hash_tail].
  destruct x as [|d [|m t]]; try done.
  apply andb_true_iff in H as [[->%Ascii.eqb_eq Hm]%andb_true_iff Ht].
  simpl. rewrite (is_marker_hash m Hm), (token_hash_tail t Ht).
  simpl. apply orb_true_r.
Qed.

Lemma tail_matches_app (x t : str) :
  tail_matches x = true -> newline ∉ x -> tail_matches t = true ->
  tail_matches (x ++ t) = true.
Proof.
  intros Hx Hnl Ht%tail_matches_hash_tail. unfold tail_matches in *.
  apply orb_true_iff in Hx as [Hx|Hx]; apply orb_true_iff.
  - left. destruct x as [|d [|m x]]; try done.
    apply andb_true_iff in Hx as [Hdm Hx]. simpl. rewrite Hdm. simpl.
    apply token_app; [done| |done].
    by apply not_elem_of_cons in Hnl as [_ [_ ?]%not_elem_of_cons].
  - right. by apply token_app.
Qed.

Lemma tail_matches_chars (x : str) :
  tail_matches x = true -> ("."%char ∉ x) /\ ("/"%char ∉ x).
Proof.
  intros H%tail_matches_hash_tail%hash_tail_chars.
  split; intros Hin; rewrite Forall_forall in H;
    destruct (H _ Hin) as [?|?]; done.
Qed.

(** ** Facts about [re_match] *)

(** The captured group is a prefix without newline, and what follows it
    matches the rest of the pattern. *)
Lemma re_match_sound (x p : str) :
  re_match x = Some p ->
  exists t, x = p ++ t /\ tail_matches t = true /\ newline ∉ p.
Proof.
  revert p; induction x as [|c x IH]; intros p; simpl.
  - done.
  - destruct (tail_matches (c :: x)) eqn:E.
    + intros [= <-]. exists (c :: x). split_and!; [done..|apply not_elem_of_nil].
    + destruct (Ascii.eqb_spec c newline) as [|Hc]; [done|].
      destruct (re_match x) as [q|]; [|done]. intros [= <-].
      destruct (IH q eq_refl) as (t & -> & Ht & Hq). exists t.
      split_and!; [done..|]. by apply not_elem_of_cons.
Qed.

(** Whenever some split of the subject fits the pattern, [re_match]
    succeeds. *)
Lemma re_match_complete (p t : str) :
  newline ∉ p -> tail_matches t = true -> is_Some (re_match (p ++ t)).
Proof.
  intros Hp Ht. induction p as [|c p IH]; simpl.
  - destruct t; simpl in *; [done|]. rewrite Ht. by eexists.
  - apply not_elem_of_cons in Hp as [Hc Hp].
    destruct (tail_matches (c :: p ++ t)); [by eexists|].
    destruct (Ascii.eqb_spec c newline); [done|].
    destruct (IH Hp) as [q ->]. by eexists.
Qed.

(** The captured group does not match the pattern again. *)
Lemma re_match_group (x p : str) : re_match x = Some p -> re_match p = None.
Proof.
  revert p; induction x as [|c x IH]; intros p; simpl.
  - done.
  - destruct (tail_matches (c :: x)) eqn:E; [by intros [= <-]|].
    destruct (Ascii.eqb_spec c newline) as [|Hc]; [done|].
    destruct (re_match x) as [q|] eqn:Hq; [|done]. intros [= <-].
    destruct (re_match_sound x q Hq) as (t & -> & Ht & Hnl).
    simpl. rewrite (IH q eq_refl).
    destruct (tail_matches (c :: q)) eqn:E'.
    + change (c :: q ++ t) with ((c :: q) ++ t) in E.
      rewrite (tail_matches_app (c :: q) t) in E; [done..| |done].
      by apply not_elem_of_cons.
    + by destruct (Ascii.eqb_spec c newline).
Qed.

(** ** The shape of [normalize]'s result *)

Lemma app_cut (c : ascii) (p r q u : str) :
  p ++ c :: r = q ++ u -> c ∉ u -> exists r', r = r' ++ u /\ q = p ++ c :: r'.
Proof.
  revert q; induction p as [|a p IH]; intros [|b q]; simpl; intros H Hu.
  - subst u. exfalso. apply Hu. by left.
  - injection H as -> ->. by exists q.
  - subst u. exfalso. apply Hu. right. apply elem_of_app. right. by left.
  - injection H as -> H. destruct (IH q H Hu) as (r' & -> & ->). by exists r'.
Qed.

Lemma endswith_app (x suffix : str) :
  BaselineBuilder.endswith x suffix = true -> exists y, x = y ++ suffix.
Proof.
  unfold BaselineBuilder.endswith.
  intros [_ H%bool_decide_eq_true]%andb_true_iff.
  exists (take (length x - length suffix) x).
  rewrite <- (take_drop (length x - length suffix) x) at 1. by rewrite H.
Qed.

(** A tracked name ends in [.js] or [.css]; its extension, when it has one,
    is that ending, in which the pattern finds nothing. *)
Lemma tracked_ext_plain (x : str) :
  BaselineBuilder.tracked x = true -> re_match (splitext x).2 = None.
Proof.
  unfold BaselineBuilder.tracked.
  intros [[y ->]%endswith_app|[y ->]%endswith_app]%orb_true_iff.
  - change (s ".js") with ("."%char :: s "js").
    rewrite splitext_stem_ext by compute_done.
    by destruct (existsb _ _).
  - change (s ".css") with ("."%char :: s "css").
    rewrite splitext_stem_ext by compute_done.
    by destruct (existsb _ _).
Qed.

(** C7: the three worked examples of the normaliser: a hash suffix is
    removed from [app-a1b2c3d4e5.js], [vendor.js] has none and is returned
    unchanged, and [chunk-A-f9e8d7c6b5a4.css] loses its marker and hash. *)
Theorem normalize_examples :
  normalize (s "app-a1b2c3d4e5.js") = s "app.js" /\
  normalize (s "vendor.js") = s "vendor.js" /\
  normalize (s "chunk-A-f9e8d7c6b5a4.css") = s "chunk.css".
Proof. split_and!; reflexivity. Qed.

(** C10: the result of [normalize] is a prefix of the stem followed by the
    extension, stem and extension being those of [splitext]; hence it is
    never longer than the input and ends with the input's extension. *)
Theorem normalize_prefix_ext (x : str) :
  exists p,
    p `prefix_of` (splitext x).1 /\
    normalize x = p ++ (splitext x).2 /\
    (splitext x).1 ++ (splitext x).2 = x /\
    (length (normalize x) <= length x)%nat /\
    (splitext x).2 `suffix_of` normalize x.
Proof.
  pose proof (splitext_app x) as Happ. unfold normalize.
  destruct (splitext x) as [b e]. simpl in *.
  assert (Hp : exists p, p `prefix_of` b /\
            match re_match b with Some g => g | None => b end = p).
  { destruct (re_match b) as [g|] eqn:Hm.
    - destruct (re_match_sound b g Hm) as (t & -> & _). exists g.
      split; [by exists t|done].
    - by exists b. }
  destruct Hp as (p & [t Hpre] & ->). exists p.
  split_and!; [by exists t|done|done| |by exists p].
  subst. rewrite !length_app. lia.
Qed.

(** ** Idempotence *)

(** A name whose stem is nothing but a hash token and whose extension
    itself ends in a hash token is stripped twice: the first pass leaves
    [.x-abcdef], which [splitext] then reads as a name of leading dots
    without extension, so that the second pass strips it to [.x]. *)
Lemma normalize_twice_differs :
  normalize (s "-abcdef.x-abcdef") = s ".x-abcdef" /\
  normalize (normalize (s "-abcdef.x-abcdef")) = s ".x" /\
  normalize (normalize (s "-abcdef.x-abcdef")) <> normalize (s "-abcdef.x-abcdef").
Proof. split_and!; [reflexivity|reflexivity|discriminate]. Qed.

(** C3 (amended): [normalize] is idempotent on a name exactly when it is
    not the case that the pattern strips the stem down to nothing but dots
    (after its last separator) while the extension, as split by
    [splitext], itself matches the pattern; so it is idempotent on every
    name whose extension holds no hash token, such as the names ending in
    [.js] or [.css], and on every name whose stripped stem keeps a
    character other than a dot. *)
Theorem normalize_idempotent (x : str) :
  stripped_to_dots x && ext_matches x = false <->
  normalize (normalize x) = normalize x.
Proof.
  pose proof (splitext_app x) as Happ. pose proof (splitext_ext x) as Hext.
  assert (Hn : normalize x =
    match re_match (splitext x).1 with Some g => g | None => (splitext x).1 end
    ++ (splitext x).2) by (unfold normalize; by destruct (splitext x)).
  unfold stripped_to_dots, ext_matches.
  destruct (splitext x) as [b e] eqn:Hs. simpl in *.
  destruct (re_match b) as [p|] eqn:Hm;
    [|split; [intros _; rewrite Hn, Happ; by rewrite Hn|done]].
  rewrite Hn. clear Hn.
  destruct (re_match_sound b p Hm) as (t & -> & Ht & Hnl).
  destruct (tail_matches_chars t Ht) as [Hdot Hsep].
  pose proof (re_match_group _ _ Hm) as Hp.
  destruct Hext as [->|(r & -> & Hr1 & Hr2)].
  - rewrite andb_false_r. split; [intros _|done].
    unfold normalize. rewrite app_nil_r in *. subst x.
    rewrite (splitext_no_ext_prefix p t Hdot Hsep) by (by rewrite Hs).
    rewrite Hp. apply app_nil_r.
  - unfold normalize. rewrite splitext_stem_ext by done.
    destruct (existsb _ _); cbn [negb andb];
      [split; [intros _; by rewrite Hp|done]|].
    destruct (re_match ("."%char :: r)) as [g|] eqn:He.
    + split; [done|]. intros Hid. exfalso.
      destruct (re_match_sound _ _ He) as (u & Hu & Htu & Hnlg).
      destruct (re_match_complete (p ++ g) u) as [q Hq]; [|done|].
      { apply not_elem_of_app. by split. }
      rewrite <- app_assoc, <- Hu in Hq. rewrite Hq, app_nil_r in Hid.
      destruct (re_match_sound _ _ Hq) as (v & Hv & Htv & _).
      rewrite <- Hid in Hv. destruct v as [|c v]; [done|].
      apply (f_equal length) in Hv. rewrite length_app in Hv. simpl in Hv. lia.
    + split; [intros _|done].
      destruct (re_match (p ++ "."%char :: r)) as [q|] eqn:Hq;
        [exfalso|apply app_nil_r].
      destruct (re_match_sound _ _ Hq) as (u & Hu & Htu & Hnlq).
      destruct (tail_matches_chars u Htu) as [Hdu _].
      destruct (app_cut "." p r q u Hu Hdu) as (r' & -> & ->).
      apply not_elem_of_app in Hnlq as [_ Hnlq].
      destruct (re_match_complete ("."%char :: r') u Hnlq Htu) as [g Hg].
      simpl in Hg, He. congruence.
Qed.

Lemma normalize_idempotent_witness :
  normalize (normalize (s "app-abcdef.x-abcdef")) =
    normalize (s "app-abcdef.x-abcdef") /\
  normalize (normalize (s "lib-a1b2c3d4.min-v2_0_0")) =
    normalize (s "lib-a1b2c3d4.min-v2_0_0") /\
  normalize (normalize (s "chunk-A-f9e8d7c6b5a4.css")) =
    normalize (s "chunk-A-f9e8d7c6b5a4.css").
Proof.
  split_and!.
  - apply (proj1 (normalize_idempotent (s "app-abcdef.x-abcdef"))). reflexivity.
  - apply (proj1 (normalize_idempotent (s "lib-a1b2c3d4.min-v2_0_0"))). reflexivity.
  - apply (proj1 (normalize_idempotent (s "chunk-A-f9e8d7c6b5a4.css"))). reflexivity.
Defined.

(* ===================================================================== *)
(** * Properties of the baseline builder                                  *)
(* ===================================================================== *)

Section Baseline.
Import BaselineBuilder.

Lemma sum_values_empty : sum_values ∅ = 0.
Proof. apply map_fold_empty. Qed.

Lemma sum_values_fresh (m : gmap str Z) (k : str) (v : Z) :
  m !! k = None -> sum_values (<[k := v]> m) = sum_values m + v.
Proof.
  intros Hk. unfold sum_values.
  rewrite map_fold_insert_L; [done| |done]. intros; lia.
Qed.

Lemma sum_values_insert (m : gmap str Z) (k : str) (v : Z) :
  sum_values (<[k := v]> m) = sum_values m - default 0 (m !! k) + v.
Proof.
  destruct (m !! k) as [v0|] eqn:Hk; simpl.
  - assert (Hm : sum_values m = sum_values (delete k m) + v0).
    { rewrite <- (insert_delete_id m k v0 Hk) at 1.
      apply sum_values_fresh, lookup_delete_eq. }
    rewrite <- insert_delete_eq, sum_values_fresh by apply lookup_delete_eq.
    lia.
  - rewrite sum_values_fresh by done. lia.
Qed.

Lemma sum_values_list (m : gmap str Z) :
  sum_values m = foldr Z.add 0 (map_to_list m).*2.
Proof.
  unfold sum_values. rewrite map_fold_foldr.
  induction (map_to_list m) as [|[k v] l IH]; simpl; [done|].
  rewrite IH. apply Z.add_comm.
Qed.

Lemma scan_step_sum (m : gmap str Z) (e : dirent) :
  sum_values (scan_step m e) = sum_values m + counted e.
Proof.
  unfold scan_step, counted.
  destruct (tracked (d_name e)); simpl; [|lia].
  destruct (d_kind e); [|lia].
  rewrite sum_values_insert. lia.
Qed.

Lemma fold_scan_sum (entries : list dirent) (m : gmap str Z) :
  sum_values (fold_left scan_step entries m) =
  sum_values m + counted_bytes entries.
Proof.
  revert m; induction entries as [|e l IH]; intros m; simpl; [lia|].
  rewrite IH, scan_step_sum. lia.
Qed.

(** The total of a scan is the number of bytes of the tracked regular
    files of the directory. *)
Lemma scan_sum (entries : list dirent) :
  sum_values (scan entries) = counted_bytes entries.
Proof. unfold scan. rewrite fold_scan_sum, sum_values_empty. lia. Qed.

Lemma scan_step_other (m : gmap str Z) (e : dirent) (k : str) (v : Z) :
  elsewhere k e -> m !! k = Some v -> scan_step m e !! k = Some v.
Proof.
  intros [H0|Hk] Hm; unfold scan_step, counted in *.
  - destruct (tracked (d_name e)); simpl; [|done].
    destruct (d_kind e) as [size|]; [|done]. subst size.
    destruct (decide (normalize (d_name e) = k)) as [->|Hne].
    + rewrite Hm. simpl. rewrite lookup_insert_eq. f_equal. lia.
    + by rewrite lookup_insert_ne.
  - destruct (tracked (d_name e)); simpl; [|done].
    destruct (d_kind e); [|done]. by rewrite lookup_insert_ne.
Qed.

Lemma scan_step_absent (m : gmap str Z) (e : dirent) (k : str) :
  normalize (d_name e) <> k -> scan_step m e !! k = m !! k.
Proof.
  intros Hk. unfold scan_step.
  destruct (tracked (d_name e)); simpl; [|done].
  destruct (d_kind e); [|done]. by rewrite lookup_insert_ne.
Qed.

Lemma scan_step_file (m : gmap str Z) (name : str) (size : Z) :
  tracked name = true ->
  scan_step m {| d_name := name; d_kind := RegularFile size |}
    !! normalize name = Some (default 0 (m !! normalize name) + size).
Proof.
  intros Ht. unfold scan_step. simpl. rewrite Ht. simpl.
  apply lookup_insert_eq.
Qed.

Lemma scan_step_default (m : gmap str Z) (e : dirent) (k : str) :
  elsewhere k e -> default 0 (scan_step m e !! k) = default 0 (m !! k).
Proof.
  intros [H0|Hk]; [|by rewrite scan_step_absent].
  unfold scan_step, counted in *.
  destruct (tracked (d_name e)); simpl; [|done].
  destruct (d_kind e) as [size|]; [|done]. subst size.
  destruct (decide (normalize (d_name e) = k)) as [->|Hne].
  - rewrite lookup_insert_eq. simpl. lia.
  - by rewrite lookup_insert_ne.
Qed.

Lemma fold_scan_default (l : list dirent) (m : gmap str Z) (k : str) :
  Forall (elsewhere k) l ->
  default 0 (fold_left scan_step l m !! k) = default 0 (m !! k).
Proof.
  intros Hl; revert m; induction Hl as [|e l He Hl IH]; intros m; simpl.
  - done.
  - by rewrite IH, scan_step_default.
Qed.

Lemma fold_scan_other (l : list dirent) (m : gmap str Z) (k : str) (v : Z) :
  Forall (elsewhere k) l -> m !! k = Some v ->
  fold_left scan_step l m !! k = Some v.
Proof.
  intros Hl; revert m; induction Hl as [|e l He Hl IH]; intros m Hm; simpl.
  - done.
  - by apply IH, scan_step_other.
Qed.

(** Two tracked regular files of one identity, anywhere in the listing,
    among entries that do not count towards that identity. *)
Lemma scan_two_files (pre mid post : list dirent) (n1 n2 : str) (s1 s2 : Z) :
  tracked n1 = true -> tracked n2 = true ->
  normalize n2 = normalize n1 ->
  Forall (elsewhere (normalize n1)) (pre ++ mid ++ post) ->
  scan (pre ++ {| d_name := n1; d_kind := RegularFile s1 |} ::
        mid ++ {| d_name := n2; d_kind := RegularFile s2 |} :: post)
    !! normalize n1 = Some (s1 + s2).
Proof.
  intros T1 T2 Hn [Hpre [Hmid Hpost]%Forall_app]%Forall_app.
  unfold scan. rewrite fold_left_app. simpl. rewrite fold_left_app. simpl.
  apply fold_scan_other; [done|].
  rewrite <- Hn, scan_step_file, Hn by done.
  erewrite fold_scan_other; [|done|by apply scan_step_file].
  rewrite fold_scan_default, lookup_empty by done. done.
Qed.

(** C4: when the scanned directory holds two tracked regular files that
    normalise to one identity, the snapshot written by the builder maps
    that identity to the sum of their sizes (the other entries being
    skipped or of other identities); with [foo-111111.js] of 100 bytes
    and [foo-222222.js] of 50 bytes, [foo.js] is mapped to 150. *)
Theorem same_identity_sizes_summed
    (now : str) (old : option content)
    (pre mid post : list dirent) (n1 n2 : str) (s1 s2 : Z) :
  tracked n1 = true -> tracked n2 = true ->
  normalize n2 = normalize n1 ->
  Forall (elsewhere (normalize n1)) (pre ++ mid ++ post) ->
  exists b,
    baseline_file
      (main now
         {| assets_dir :=
              Some (pre ++ {| d_name := n1; d_kind := RegularFile s1 |} ::
                    mid ++ {| d_name := n2; d_kind := RegularFile s2 |} ::
                    post);
            baseline_file := old |}).1.1 = Some (Dumped b) /\
    chunks b !! normalize n1 = Some (s1 + s2).
Proof.
  intros T1 T2 Hn Hrest. eexists. split; [reflexivity|]. simpl.
  by apply scan_two_files.
Qed.

Lemma same_identity_sizes_summed_witness :
  exists b,
    baseline_file
      (main (s "2024-01-01T00:00:00Z")
         {| assets_dir :=
              Some [ {| d_name := s "img"; d_kind := NotAFile |};
                     {| d_name := s "foo-111111.js"; d_kind := RegularFile 100 |};
                     {| d_name := s "foo-222222.js"; d_kind := RegularFile 50 |};
                     {| d_name := s "vendor.js"; d_kind := RegularFile 20 |} ];
            baseline_file := None |}).1.1 = Some (Dumped b) /\
    chunks b !! s "foo.js" = Some 150.
Proof.
  apply (same_identity_sizes_summed (s "2024-01-01T00:00:00Z") None
           [ {| d_name := s "img"; d_kind := NotAFile |} ] []
           [ {| d_name := s "vendor.js"; d_kind := RegularFile 20 |} ]
           (s "foo-111111.js") (s "foo-222222.js") 100 50);
    [reflexivity|reflexivity|reflexivity|].
  constructor; [by left|]. constructor; [by right|]. constructor.
Defined.

(** C5: the [total] of the snapshot written by the builder is the sum of
    the byte counts of all entries of its [chunks] mapping. *)
Theorem baseline_total_is_sum
    (now : str) (fs : filesystem) (entries : list dirent) :
  assets_dir fs = Some entries ->
  exists b,
    baseline_file (main now fs).1.1 = Some (Dumped b) /\
    chunks b = scan entries /\
    total b = foldr Z.add 0 (map_to_list (chunks b)).*2.
Proof.
  intros Hdir. unfold main. rewrite Hdir. eexists.
  split_and!; [reflexivity|reflexivity|]. simpl. apply sum_values_list.
Qed.

Lemma baseline_total_is_sum_witness :
  exists b,
    baseline_file
      (main (s "2024-01-01T00:00:00Z")
         {| assets_dir :=
              Some [ {| d_name := s "app-a1b2c3d4e5.js"; d_kind := RegularFile 1000 |};
                     {| d_name := s "vendor.js"; d_kind := RegularFile 20 |};
                     {| d_name := s "img"; d_kind := NotAFile |} ];
            baseline_file := None |}).1.1 = Some (Dumped b) /\
    chunks b =
      scan [ {| d_name := s "app-a1b2c3d4e5.js"; d_kind := RegularFile 1000 |};
             {| d_name := s "vendor.js"; d_kind := RegularFile 20 |};
             {| d_name := s "img"; d_kind := NotAFile |} ] /\
    total b = foldr Z.add 0 (map_to_list (chunks b)).*2.
Proof.
  apply (baseline_total_is_sum (s "2024-01-01T00:00:00Z")).
  reflexivity.
Defined.

(** C6: when the input directory does not exist, [main] returns 1, which
    becomes the exit status, and leaves the file system as it was: no
    baseline file is created or modified. *)
Theorem missing_directory_no_write (now : str) (fs : filesystem) :
  assets_dir fs = None ->
  (main now fs).2 = 1 /\
  (main now fs).1.1 = fs /\
  baseline_file (main now fs).1.1 = baseline_file fs /\
  (main now fs).1.2 = [AssetsNotFound].
Proof. intros Hdir. unfold main. by rewrite Hdir. Qed.

Lemma missing_directory_no_write_witness :
  let fs := {| assets_dir := None; baseline_file := Some (Text (s "{}")) |} in
  (main (s "2024-01-01T00:00:00Z") fs).2 = 1 /\
  (main (s "2024-01-01T00:00:00Z") fs).1.1 = fs /\
  baseline_file (main (s "2024-01-01T00:00:00Z") fs).1.1 = baseline_file fs /\
  (main (s "2024-01-01T00:00:00Z") fs).1.2 = [AssetsNotFound].
Proof.
  intros fs. apply (missing_directory_no_write (s "2024-01-01T00:00:00Z") fs).
  reflexivity.
Defined.
End Baseline.

(* ===================================================================== *)
(** * Properties of the report summariser                                 *)
(* ===================================================================== *)

Section Summary.
Import ReportSummarizer.

Lemma too_large_zero : too_large (inject_Z 0) = false.
Proof. reflexivity. Qed.

Lemma total_delta_pct_spec (b d : Z) :
  total_delta_pct b d =
  if (0 <? b) && too_large (d # Z.to_pos b)
  then raise OverflowError
  else ret (overall_pct b d).
Proof.
  unfold total_delta_pct, overall_pct.
  destruct (Z.ltb_spec 0 b); [|done]. destruct b; try lia. simpl.
  by destruct (too_large _).
Qed.

Lemma format_overall_pct (b d : Z) :
  format_pct (overall_pct b d) = ret (overall_pct b d).
Proof. unfold overall_pct. by destruct (0 <? b). Qed.

Section Sorting.
Context {A : Type} (key : A -> Z).

Lemma insert_desc_perm (x : A) (l : list A) :
  Permutation (insert_desc key x l) (x :: l).
Proof.
  induction l as [|y l IH]; simpl; [done|].
  destruct (key x <? key y); [|done].
  rewrite IH. apply perm_swap.
Qed.

Lemma sort_desc_perm (l : list A) : Permutation (sort_desc key l) l.
Proof.
  induction l as [|x l IH]; simpl; [done|].
  rewrite insert_desc_perm. by constructor.
Qed.

Lemma insert_desc_sorted (x : A) (l : list A) :
  StronglySorted (descending key) l -> StronglySorted (descending key) (insert_desc key x l).
Proof.
  induction 1 as [|y l Hl IH Hy]; simpl.
  - repeat constructor.
  - destruct (Z.ltb_spec (key x) (key y)).
    + constructor; [done|].
      rewrite insert_desc_perm. constructor; [unfold descending; lia|done].
    + constructor; [by constructor|].
      constructor; [done|].
      eapply Forall_impl; [exact Hy|]. unfold descending. intros; simpl in *; lia.
Qed.

Lemma sort_desc_sorted (l : list A) : StronglySorted (descending key) (sort_desc key l).
Proof.
  induction l as [|x l IH]; simpl; [constructor|].
  by apply insert_desc_sorted.
Qed.
End Sorting.


Lemma failing_chunks_failing (r : report) :
  Forall (fun x => is_failing x.2 = true) (failing_chunks r).
Proof.
  unfold failing_chunks. rewrite sort_desc_perm.
  apply Forall_forall. intros x Hx%list_elem_of_In%filter_In. tauto.
Qed.

Lemma print_chunk_line (x : str * chunk) :
  is_failing x.2 = true ->
  print_chunk x =
  if pct_fits x.2 then print (chunk_line x) else raise OverflowError.
Proof.
  destruct x as [name c].
  unfold is_failing, print_chunk, chunk_line, pct_fits. simpl.
  destruct (status c); [|done]. intros _.
  destruct (deltaPct c) as [[z|q]|]; simpl; try done.
  by destruct (too_large (inject_Z z)).
Qed.

(** The lines of the loop, with the error line of the handler when the
    loop is left by an exception. *)
Lemma for_each_print_chunks (l : list (str * chunk)) :
  Forall (fun x => is_failing x.2 = true) l ->
  lines_until_overflow l =
  match for_each l print_chunk with
  | (out, inl e) => out ++ [ErrorReadingReport e]
  | (out, inr _) => out
  end.
Proof.
  induction 1 as [|x l Hx Hl IH]; [done|].
  cbn [for_each lines_until_overflow]. rewrite print_chunk_line by done.
  destruct (pct_fits x.2); [|done].
  rewrite IH. unfold bind, print.
  by destruct (for_each l print_chunk) as [out [e|[]]].
Qed.

(** What the script prints for a stored report. *)
Lemma script_stored (r : report) :
  script (Stored r) =
    (if total_fits r
     then header_lines r ++ lines_until_overflow (take 50 (failing_chunks r))
     else [ErrorReadingReport OverflowError], 0).
Proof.
  unfold script, body, total_fits, header_lines. cbn [load].
  unfold bind at 1. cbn [ret]. cbv zeta.
  rewrite total_delta_pct_spec.
  destruct (_ && _); [done|]. cbn [negb].
  rewrite for_each_print_chunks
    by apply Forall_take, failing_chunks_failing.
  unfold bind, ret, print. rewrite format_overall_pct. unfold ret.
  by destruct (for_each _ _) as [out [e|[]]].
Qed.




Lemma lines_until_overflow_lines (l : list (str * chunk)) :
  Forall (fun ln => ln = ErrorReadingReport OverflowError \/
                    exists x, x ∈ l /\ ln = chunk_line x)
         (lines_until_overflow l).
Proof.
  induction l as [|x l IH]; simpl; [constructor|].
  destruct (pct_fits x.2).
  - constructor; [right; exists x; split; [by left|done]|].
    eapply Forall_impl; [exact IH|]. simpl.
    intros ln [->|(y & Hy & ->)]; [by left|right].
    exists y. split; [by right|done].
  - constructor; [by left|constructor].
Qed.



(** Only [OverflowError] can leave the [try] block of a stored report. *)
Lemma stored_errors (r : report) (e : exn) :
  e <> OverflowError -> ErrorReadingReport e ∉ (script (Stored r)).1.
Proof.
  intros He. rewrite script_stored. cbn [fst].
  destruct (total_fits r).
  - unfold header_lines. cbn [app]. rewrite !not_elem_of_cons.
    split_and!; try done. intros Hin.
    pose proof (lines_until_overflow_lines (take 50 (failing_chunks r))) as Hl.
    rewrite Forall_forall in Hl.
    destruct (Hl _ Hin) as [[= ->]|(x & _ & Hx)]; done.
  - rewrite not_elem_of_cons. split; [congruence|apply not_elem_of_nil].
Qed.

(** C2 as stated fails: with the report file missing, the script prints
    its one diagnostic line and then ends with exit status 0. *)
Lemma missing_report_exit_status :
  (script Missing).1 = [ErrorReadingReport FileNotFoundError] /\
  (script Missing).2 = 0 /\
  ~ (script Missing).2 <> 0.
Proof. split_and!; [reflexivity|reflexivity|]. intros H. by apply H. Qed.

(** C2 (amended): when reading or parsing the report file fails (missing
    file, malformed JSON), the failure is caught, exactly one diagnostic
    line is printed, and the script ends normally, with exit status 0. *)
Theorem failed_read_one_line_exit_zero :
  script Missing = ([ErrorReadingReport FileNotFoundError], 0) /\
  forall text, script (Malformed text) =
               ([ErrorReadingReport (JSONDecodeError text)], 0).
Proof. split; [reflexivity|]. intros text. reflexivity. Qed.

(** C8: with a baseline total of 0 the overall percentage is 0; the
    division is only reached with a positive divisor, so that it never
    raises [ZeroDivisionError], and the total line of a report whose
    baseline [totalBytes] is 0 shows 0%, with no error line for a
    division by zero. *)
Theorem zero_baseline_pct_is_zero :
  (forall total_delta, total_delta_pct 0 total_delta = ret (Int 0)) /\
  (forall total_baseline total_delta,
      total_delta_pct total_baseline total_delta <> raise ZeroDivisionError) /\
  (forall st cur chunks,
      let r := {| r_status := st; r_baseline_total := Some 0;
                  r_current_total := cur; r_chunks := chunks |} in
      (script (Stored r)).1 !! 3%nat =
        Some (TotalDelta (default 0 cur - 0) (Int 0)) /\
      (script (Stored r)).2 = 0) /\
  (forall r, ErrorReadingReport ZeroDivisionError ∉ (script (Stored r)).1).
Proof.
  split_and!.
  - done.
  - intros b d. rewrite total_delta_pct_spec. by destruct (_ && _).
  - intros st cur chunks r. by rewrite script_stored.
  - intros r. by apply stored_errors.
Qed.


End Summary.

(* ===================================================================== *)
(** * The classification example                                          *)
(* ===================================================================== *)

(** C1: a chunk of 1000 bytes in the baseline and 1300 bytes now, with a
    warn threshold of 10% and a fail threshold of 25% (whatever the byte
    thresholds), is classified [fail] with [deltaPct] equal to 0.30. *)
Theorem classify_growth_example (warn_bytes fail_bytes : option Z) :
  let cfg :=
    {| Comparator.warn := {| Comparator.pct := Some (10 # 100);
                             Comparator.bytes := warn_bytes |};
       Comparator.fail := {| Comparator.pct := Some (25 # 100);
                             Comparator.bytes := fail_bytes |} |} in
  Comparator.cr_status (Comparator.classify cfg 1000 1300) = Comparator.Fail /\
  Comparator.baselineBytes (Comparator.classify cfg 1000 1300) = 1000 /\
  Comparator.currentBytes (Comparator.classify cfg 1000 1300) = 1300 /\
  (Comparator.deltaPct (Comparator.classify cfg 1000 1300) == 30 # 100)%Q.
Proof. intros cfg. split_and!; reflexivity. Qed.


(* ===================================================================== *)
(** * Further properties of the name normaliser                           *)
(* ===================================================================== *)

Lemma hash_tail_length (n : nat) (x : str) :
  hash_tail n x = true -> (n <= length x)%nat.
Proof.
  revert x; induction n as [|n IH]; intros [|c t]; simpl; try done; try lia.
  intros [_ Ht]%andb_true_iff. apply IH in Ht. lia.
Qed.

Lemma hash_tail_all (n : nat) (h : str) :
  forallb is_hash h = true -> (n <= length h)%nat -> hash_tail n h = true.
Proof.
  revert n; induction h as [|c h IH]; intros n Hh Hn; simpl in *.
  - by replace n with 0%nat by lia.
  - apply andb_true_iff in Hh as [Hc Hh]. destruct n as [|n]; simpl.
    + rewrite Hc, (IH 0%nat) by (done || lia). apply orb_true_r.
    + rewrite Hc. apply IH; [done|lia].
Qed.

Lemma token_length (x : str) : token x = true -> (7 <= length x)%nat.
Proof.
  destruct x as [|c t]; simpl; [done|].
  intros [_ Ht%hash_tail_length]%andb_true_iff. lia.
Qed.

Lemma token_dash (x : str) : token x = true -> exists t, x = "-"%char :: t.
Proof.
  destruct x as [|c t]; simpl; [done|].
  intros [->%Ascii.eqb_eq _]%andb_true_iff. by exists t.
Qed.

Lemma tail_matches_token (x : str) : tail_matches x = token x.
Proof.
  unfold tail_matches. destruct (token x) eqn:Hx; [apply orb_true_r|].
  rewrite orb_false_r. destruct x as [|d [|m t]]; try done.
  destruct (Ascii.eqb d "-" && is_marker m && token t) eqn:E; [|done].
  apply andb_true_iff in E as [[Hd Hm]%andb_true_iff Ht].
  destruct (token_dash t Ht) as [h ->]. simpl in Ht, Hx.
  rewrite Hd in Hx. simpl in Hx.
  rewrite (is_marker_hash m Hm) in Hx. simpl in Hx.
  by rewrite (hash_tail_weaken 4 h (hash_tail_weaken 5 h Ht)) in Hx.
Qed.

(** X1: the optional group [(?:-[A-Z0-9])?] is redundant: a marker and
    the dash after it are themselves characters of the hash class, so that
    what follows the captured prefix fits the pattern exactly when it fits
    [-[A-Za-z0-9_-]{6,}$]. *)
Theorem marker_group_redundant (x : str) : tail_matches x = token x.
Proof. exact (tail_matches_token x). Qed.

Lemma re_match_dash (x p : str) : re_match x = Some p -> "-"%char ∈ x.
Proof.
  intros (t & -> & Ht & _)%re_match_sound.
  rewrite tail_matches_token in Ht.
  destruct (token_dash t Ht) as [h ->].
  apply elem_of_app. right. by left.
Qed.

Lemma re_match_cut (x p : str) :
  re_match x = Some p -> (length p + 7 <= length x)%nat.
Proof.
  intros (t & -> & Ht & _)%re_match_sound.
  rewrite tail_matches_token in Ht. apply token_length in Ht.
  rewrite length_app. lia.
Qed.

(** X2: a name without hyphen is returned unchanged. *)
Theorem normalize_no_hyphen (x : str) : "-"%char ∉ x -> normalize x = x.
Proof.
  intros Hx. pose proof (splitext_app x) as Happ. unfold normalize.
  destruct (splitext x) as [b e]. simpl in Happ.
  destruct (re_match b) as [p|] eqn:Hm; [|done].
  exfalso. apply Hx. rewrite <- Happ. apply elem_of_app. left.
  by apply (re_match_dash b p).
Qed.

Lemma normalize_no_hyphen_witness :
  ("-"%char ∉ s "vendor.min.js") /\
  normalize (s "vendor.min.js") = s "vendor.min.js".
Proof.
  assert (H : "-"%char ∉ s "vendor.min.js") by compute_done.
  split; [exact H|]. exact (normalize_no_hyphen (s "vendor.min.js") H).
Defined.

(** X3: either nothing is removed, or at least seven characters are: the dash
    and the six characters of the shortest hash. *)
Theorem normalize_all_or_seven (x : str) :
  normalize x = x \/ (length (normalize x) + 7 <= length x)%nat.
Proof.
  pose proof (splitext_app x) as Happ. unfold normalize.
  destruct (splitext x) as [b e]. simpl in Happ.
  destruct (re_match b) as [p|] eqn:Hm; [right|by left].
  apply re_match_cut in Hm. rewrite <- Happ, !length_app. lia.
Qed.

Lemma re_match_first_hyphen (p h : str) :
  "-"%char ∉ p -> newline ∉ p ->
  forallb is_hash h = true -> (6 <= length h)%nat ->
  re_match (p ++ "-"%char :: h) = Some p.
Proof.
  intros Hd Hn Hh Hl. induction p as [|c p IH].
  - simpl. rewrite tail_matches_token. simpl.
    by rewrite (hash_tail_all 6 h Hh Hl).
  - apply not_elem_of_cons in Hd as [Hc Hd].
    apply not_elem_of_cons in Hn as [Hcn Hn].
    cbn [app re_match]. rewrite tail_matches_token. simpl.
    destruct (Ascii.eqb_spec c "-") as [|_]; [congruence|]. simpl.
    destruct (Ascii.eqb_spec c newline) as [|_]; [congruence|].
    by rewrite IH.
Qed.

(** X4: the stem is cut at its first hyphen as soon as at least six characters
    follow, all of the hash class (to which the hyphen belongs): what comes
    before the first hyphen is the chunk identity, also when the logical
    name itself has hyphens. *)
Theorem normalize_cuts_at_first_hyphen (x p h : str) :
  (splitext x).1 = p ++ "-"%char :: h ->
  "-"%char ∉ p -> newline ∉ p ->
  forallb is_hash h = true -> (6 <= length h)%nat ->
  normalize x = p ++ (splitext x).2.
Proof.
  intros Hs Hd Hn Hh Hl. unfold normalize.
  destruct (splitext x) as [b e]. simpl in *. subst b.
  by rewrite re_match_first_hyphen.
Qed.

Lemma normalize_cuts_at_first_hyphen_witness :
  normalize (s "vendor-react-a1b2c3d4.js") = s "vendor" ++ s ".js".
Proof.
  apply (normalize_cuts_at_first_hyphen (s "vendor-react-a1b2c3d4.js")
           (s "vendor") (s "react-a1b2c3d4"));
    [reflexivity|compute_done|compute_done|reflexivity|simpl; lia].
Defined.

Lemma endswith_intro (y suffix : str) :
  BaselineBuilder.endswith (y ++ suffix) suffix = true.
Proof.
  unfold BaselineBuilder.endswith. rewrite length_app.
  apply andb_true_iff. split; [apply Nat.leb_le; lia|].
  apply bool_decide_eq_true.
  replace (length y + length suffix - length suffix)%nat with (length y) by lia.
  apply drop_app_length.
Qed.

Lemma normalize_keeps_ending (y r : str) :
  "."%char ∉ r -> "/"%char ∉ r -> (length r < 7)%nat ->
  BaselineBuilder.endswith (normalize (y ++ "."%char :: r)) ("."%char :: r) = true.
Proof.
  intros Hdot Hsep Hr. unfold normalize. rewrite splitext_stem_ext by done.
  destruct (existsb _ _).
  - destruct (re_match y); apply endswith_intro.
  - destruct (re_match (y ++ "."%char :: r)) as [q|] eqn:Hq.
    + exfalso. destruct (re_match_sound _ _ Hq) as (u & Hu & Htu & _).
      destruct (tail_matches_chars u Htu) as [Hdu _].
      destruct (app_cut "." y r q u Hu Hdu) as (r' & -> & _).
      rewrite tail_matches_token in Htu. apply token_length in Htu.
      rewrite length_app in Hr. lia.
    + rewrite app_nil_r. apply endswith_intro.
Qed.

Lemma normalize_keeps_tracked (x : str) :
  BaselineBuilder.tracked x = true ->
  BaselineBuilder.tracked (normalize x) = true.
Proof.
  unfold BaselineBuilder.tracked.
  intros [[y ->]%endswith_app|[y ->]%endswith_app]%orb_true_iff;
    apply orb_true_iff; [left|right].
  - apply (normalize_keeps_ending y (s "js")); [compute_done..|simpl; lia].
  - apply (normalize_keeps_ending y (s "css")); [compute_done..|simpl; lia].
Qed.

(** X5: a tracked name stays tracked: the normalised name of a [.js] file
    ends in [.js], that of a [.css] file in [.css]. *)
Theorem normalize_tracked (x : str) :
  BaselineBuilder.tracked x = true ->
  BaselineBuilder.tracked (normalize x) = true.
Proof. exact (normalize_keeps_tracked x). Qed.

Lemma normalize_tracked_witness :
  BaselineBuilder.tracked (normalize (s "app-a1b2c3d4e5.js")) = true.
Proof. apply (normalize_tracked (s "app-a1b2c3d4e5.js")). reflexivity. Defined.

Lemma re_match_short_ext (y r : str) :
  (length r < 7)%nat -> re_match (y ++ "."%char :: r) = None.
Proof.
  intros Hr. destruct (re_match _) as [q|] eqn:Hq; [exfalso|done].
  destruct (re_match_sound _ _ Hq) as (u & Hu & Htu & _).
  destruct (tail_matches_chars u Htu) as [Hdu _].
  destruct (app_cut "." y r q u Hu Hdu) as (r' & -> & _).
  rewrite tail_matches_token in Htu. apply token_length in Htu.
  rewrite length_app in Hr. lia.
Qed.

Lemma normalize_short_ext (y r : str) :
  "."%char ∉ r -> "/"%char ∉ r -> (length r < 7)%nat ->
  normalize (y ++ "."%char :: r) =
  (if existsb non_dot (drop (Z.to_nat (rfind "/" y + 1)) y)
   then match re_match y with Some g => g | None => y end
   else y) ++ "."%char :: r.
Proof.
  intros Hdot Hsep Hr. unfold normalize. rewrite splitext_stem_ext by done.
  destruct (existsb _ _); [done|].
  by rewrite re_match_short_ext, app_nil_r.
Qed.

Lemma normalize_twice_short_ext (y r : str) :
  "."%char ∉ r -> "/"%char ∉ r -> (length r < 7)%nat ->
  normalize (normalize (y ++ "."%char :: r)) = normalize (y ++ "."%char :: r).
Proof.
  intros Hdot Hsep Hr. rewrite (normalize_short_ext y r) by done.
  destruct (existsb non_dot (drop _ y)) eqn:E.
  - assert (Hg : re_match (match re_match y with Some g => g | None => y end)
                 = None).
    { destruct (re_match y) as [g|] eqn:Hy; [|done].
      by apply (re_match_group y). }
    set (stem := match re_match y with Some g => g | None => y end) in *.
    rewrite normalize_short_ext, Hg by done.
    by destruct (existsb non_dot (drop _ stem)).
  - by rewrite normalize_short_ext, E.
Qed.

(** X6: on the names the builder passes to it, those ending in [.js] or
    [.css], normalising twice is the same as normalising once. *)
Theorem normalize_idempotent_on_tracked (x : str) :
  BaselineBuilder.tracked x = true ->
  normalize (normalize x) = normalize x.
Proof.
  unfold BaselineBuilder.tracked.
  intros [[y ->]%endswith_app|[y ->]%endswith_app]%orb_true_iff.
  - apply (normalize_twice_short_ext y (s "js")); [compute_done..|simpl; lia].
  - apply (normalize_twice_short_ext y (s "css")); [compute_done..|simpl; lia].
Qed.

Lemma normalize_idempotent_on_tracked_witness :
  normalize (normalize (s "-abcdef.js")) = normalize (s "-abcdef.js").
Proof. apply (normalize_idempotent_on_tracked (s "-abcdef.js")). reflexivity. Defined.

(* ===================================================================== *)
(** * Further properties of the baseline builder                          *)
(* ===================================================================== *)

Section BaselineMore.
Import BaselineBuilder.

Lemma counted_not_counted (e : dirent) : is_counted e = false -> counted e = 0.
Proof.
  unfold is_counted, counted.
  destruct (tracked (d_name e)); [|done]. by destruct (d_kind e).
Qed.

Lemma scan_step_skipped (m : gmap str Z) (e : dirent) :
  is_counted e = false -> scan_step m e = m.
Proof.
  unfold is_counted, scan_step.
  destruct (tracked (d_name e)); [|done]. by destruct (d_kind e).
Qed.

Lemma scan_step_lookup (m : gmap str Z) (e : dirent) (k : str) :
  scan_step m e !! k =
  if of_identity k e then Some (default 0 (m !! k) + counted e) else m !! k.
Proof.
  unfold of_identity. destruct (is_counted e) eqn:Hc; simpl.
  - unfold is_counted in Hc. unfold scan_step, counted.
    destruct (tracked (d_name e)); [|done]. simpl.
    destruct (d_kind e) as [size|]; [|done].
    destruct (decide (normalize (d_name e) = k)) as [<-|Hne].
    + rewrite bool_decide_eq_true_2 by done. apply lookup_insert_eq.
    + rewrite bool_decide_eq_false_2 by done. by apply lookup_insert_ne.
  - by rewrite scan_step_skipped.
Qed.

Lemma bytes_of_identity_none (k : str) (l : list dirent) :
  existsb (of_identity k) l = false -> bytes_of_identity k l = 0.
Proof.
  unfold bytes_of_identity. induction l as [|e l IH]; simpl; [done|].
  intros [He Hl]%orb_false_iff. rewrite He. by apply IH.
Qed.

Lemma bytes_of_identity_cons (k : str) (e : dirent) (l : list dirent) :
  bytes_of_identity k (e :: l) =
  (if of_identity k e then counted e else 0) + bytes_of_identity k l.
Proof.
  unfold bytes_of_identity. simpl. by destruct (of_identity k e).
Qed.

Lemma fold_scan_lookup (l : list dirent) (m : gmap str Z) (k : str) :
  fold_left scan_step l m !! k =
  if existsb (of_identity k) l
  then Some (default 0 (m !! k) + bytes_of_identity k l)
  else m !! k.
Proof.
  revert m; induction l as [|e l IH]; intros m; [done|].
  cbn [fold_left existsb]. rewrite IH, scan_step_lookup.
  rewrite bytes_of_identity_cons.
  destruct (of_identity k e) eqn:He;
    destruct (existsb (of_identity k) l) eqn:Hl; simpl; try done.
  - f_equal. unfold id. lia.
  - rewrite (bytes_of_identity_none k l Hl). f_equal. lia.
Qed.

Lemma scan_lookup_eq (entries : list dirent) (k : str) :
  scan entries !! k =
  if existsb (of_identity k) entries
  then Some (bytes_of_identity k entries)
  else None.
Proof.
  unfold scan. rewrite fold_scan_lookup, lookup_empty. simpl.
  destruct (existsb _ _); [f_equal; lia|done].
Qed.

(** X7: the byte count recorded for an identity is the sum of the sizes of
    the tracked regular files of that identity, and an identity without
    such a file has no entry. *)
Theorem scan_lookup (entries : list dirent) (k : str) :
  scan entries !! k =
  if existsb (of_identity k) entries
  then Some (bytes_of_identity k entries)
  else None.
Proof. exact (scan_lookup_eq entries k). Qed.

Lemma existsb_perm {A} (f : A -> bool) (l l' : list A) :
  Permutation l l' -> existsb f l = existsb f l'.
Proof.
  induction 1 as [|x l l' _ IH|x y l|l1 l2 l3 _ IH1 _ IH2]; simpl.
  - done.
  - by rewrite IH.
  - by destruct (f x), (f y).
  - congruence.
Qed.

Lemma counted_bytes_perm (l l' : list dirent) :
  Permutation l l' -> counted_bytes l = counted_bytes l'.
Proof.
  unfold counted_bytes.
  induction 1 as [|x l l' _ IH|x y l|l1 l2 l3 _ IH1 _ IH2]; simpl; lia.
Qed.

Lemma list_filter_perm {A} (f : A -> bool) (l l' : list A) :
  Permutation l l' -> Permutation (List.filter f l) (List.filter f l').
Proof.
  induction 1 as [|x l l' _ IH|x y l|l1 l2 l3 _ IH1 _ IH2]; simpl.
  - done.
  - destruct (f x); [by constructor|done].
  - destruct (f x), (f y); try done. apply perm_swap.
  - by etrans.
Qed.

(** X8: the snapshot does not depend on the order in which [os.listdir]
    returns the names. *)
Theorem scan_order_independent (l l' : list dirent) :
  Permutation l l' -> scan l = scan l'.
Proof.
  intros Hp. apply map_eq. intros k. rewrite !scan_lookup_eq.
  rewrite (existsb_perm _ l l' Hp). unfold bytes_of_identity.
  by rewrite (counted_bytes_perm _ _ (list_filter_perm (of_identity k) l l' Hp)).
Qed.

Lemma scan_order_independent_witness :
  scan [ {| d_name := s "foo-111111.js"; d_kind := RegularFile 100 |};
         {| d_name := s "vendor.js"; d_kind := RegularFile 20 |};
         {| d_name := s "foo-222222.js"; d_kind := RegularFile 50 |} ] =
  scan [ {| d_name := s "vendor.js"; d_kind := RegularFile 20 |};
         {| d_name := s "foo-222222.js"; d_kind := RegularFile 50 |};
         {| d_name := s "foo-111111.js"; d_kind := RegularFile 100 |} ].
Proof.
  apply scan_order_independent.
  apply (Permutation_cons_app [_; _] []). reflexivity.
Defined.

Lemma fold_scan_counted (l : list dirent) (m : gmap str Z) :
  fold_left scan_step (List.filter is_counted l) m = fold_left scan_step l m.
Proof.
  revert m; induction l as [|e l IH]; intros m; simpl; [done|].
  destruct (is_counted e) eqn:He; simpl; [done|].
  by rewrite scan_step_skipped.
Qed.

(** X9: directories, other non-regular entries and names that end neither in
    [.js] nor in [.css] leave no trace in the snapshot. *)
Theorem scan_ignores_skipped (entries : list dirent) :
  scan (List.filter is_counted entries) = scan entries.
Proof. apply fold_scan_counted. Qed.

(** X10: every identity of the snapshot is the normalised name of a tracked
    regular file of the directory, and itself ends in [.js] or [.css]. *)
Theorem scan_keys (entries : list dirent) (k : str) (v : Z) :
  scan entries !! k = Some v ->
  tracked k = true /\
  exists e, e ∈ entries /\ is_counted e = true /\ normalize (d_name e) = k.
Proof.
  rewrite scan_lookup_eq. destruct (existsb _ _) eqn:E; [|done]. intros _.
  apply existsb_exists in E as (e & He%list_elem_of_In & Hk).
  unfold of_identity in Hk.
  apply andb_true_iff in Hk as [Hc Hk%bool_decide_eq_true].
  split; [|by exists e].
  subst k. apply normalize_keeps_tracked. unfold is_counted in Hc.
  by apply andb_true_iff in Hc as [? _].
Qed.

Lemma scan_keys_witness :
  tracked (s "foo.js") = true /\
  exists e,
    e ∈ [ {| d_name := s "foo-111111.js"; d_kind := RegularFile 100 |};
          {| d_name := s "img"; d_kind := NotAFile |} ] /\
    is_counted e = true /\ normalize (d_name e) = s "foo.js".
Proof.
  apply (scan_keys _ (s "foo.js") 100). reflexivity.
Defined.

(** X11: every tracked regular file has its identity in the
    snapshot. *)
Theorem scan_covers (entries : list dirent) (e : dirent) :
  e ∈ entries -> is_counted e = true ->
  is_Some (scan entries !! normalize (d_name e)).
Proof.
  intros He Hc. rewrite scan_lookup_eq.
  assert (existsb (of_identity (normalize (d_name e))) entries = true) as ->;
    [|by eexists].
  apply existsb_exists. exists e. split; [by apply list_elem_of_In|].
  unfold of_identity. rewrite Hc. by rewrite bool_decide_eq_true_2.
Qed.

Lemma scan_covers_witness :
  is_Some (scan [ {| d_name := s "img"; d_kind := NotAFile |};
                  {| d_name := s "app-a1b2c3d4e5.css"; d_kind := RegularFile 7 |} ]
             !! s "app.css").
Proof.
  apply (scan_covers _ {| d_name := s "app-a1b2c3d4e5.css"; d_kind := RegularFile 7 |});
    [right; left|reflexivity].
Defined.

(** X12: the [total] written by a successful run is the number of bytes of the
    tracked regular files of the directory, and the run returns 0. *)
Theorem baseline_total_counts_files
    (now : str) (fs : filesystem) (entries : list dirent) :
  assets_dir fs = Some entries ->
  exists b,
    (main now fs).1.1 =
      {| assets_dir := Some entries; baseline_file := Some (Dumped b) |} /\
    generatedAt b = now /\
    total b = counted_bytes entries /\
    (main now fs).1.2 =
      [BaselineGenerated; TotalChunks (size (chunks b)); TotalSize (counted_bytes entries)] /\
    (main now fs).2 = 0.
Proof.
  intros Hdir. unfold main. rewrite Hdir. eexists. simpl.
  rewrite scan_sum. split_and!; reflexivity.
Qed.

Lemma baseline_total_counts_files_witness :
  exists b,
    (main (s "2024-01-01T00:00:00Z")
       {| assets_dir :=
            Some [ {| d_name := s "app-a1b2c3d4e5.js"; d_kind := RegularFile 1000 |};
                   {| d_name := s "notes.txt"; d_kind := RegularFile 5 |} ];
          baseline_file := Some (Text (s "old")) |}).1.1 =
      {| assets_dir :=
            Some [ {| d_name := s "app-a1b2c3d4e5.js"; d_kind := RegularFile 1000 |};
                   {| d_name := s "notes.txt"; d_kind := RegularFile 5 |} ];
         baseline_file := Some (Dumped b) |} /\
    generatedAt b = s "2024-01-01T00:00:00Z" /\
    total b = 1000 /\
    (main (s "2024-01-01T00:00:00Z")
       {| assets_dir :=
            Some [ {| d_name := s "app-a1b2c3d4e5.js"; d_kind := RegularFile 1000 |};
                   {| d_name := s "notes.txt"; d_kind := RegularFile 5 |} ];
          baseline_file := Some (Text (s "old")) |}).1.2 =
      [BaselineGenerated; TotalChunks (size (chunks b)); TotalSize 1000] /\
    (main (s "2024-01-01T00:00:00Z")
       {| assets_dir :=
            Some [ {| d_name := s "app-a1b2c3d4e5.js"; d_kind := RegularFile 1000 |};
                   {| d_name := s "notes.txt"; d_kind := RegularFile 5 |} ];
          baseline_file := Some (Text (s "old")) |}).2 = 0.
Proof.
  apply (baseline_total_counts_files (s "2024-01-01T00:00:00Z")).
  reflexivity.
Defined.

Lemma counted_bytes_filter (f : dirent -> bool) (l : list dirent) :
  Forall (fun e => 0 <= counted e) l ->
  0 <= counted_bytes (List.filter f l) <= counted_bytes l.
Proof.
  unfold counted_bytes. induction 1 as [|e l He Hl IH]; simpl; [lia|].
  destruct (f e); simpl; lia.
Qed.

(** X13: with sizes that are not negative, as [os.path.getsize] returns them,
    the byte count of a chunk lies between 0 and the total. *)
Theorem chunk_within_total (entries : list dirent) (k : str) (v : Z) :
  Forall (fun e => 0 <= counted e) entries ->
  scan entries !! k = Some v ->
  0 <= v <= sum_values (scan entries).
Proof.
  intros Hpos. rewrite scan_lookup_eq, scan_sum.
  destruct (existsb _ _); [|done]. intros [= <-].
  by apply counted_bytes_filter.
Qed.

Lemma chunk_within_total_witness :
  0 <= 150 <=
  sum_values
    (scan [ {| d_name := s "foo-111111.js"; d_kind := RegularFile 100 |};
            {| d_name := s "vendor.js"; d_kind := RegularFile 20 |};
            {| d_name := s "foo-222222.js"; d_kind := RegularFile 50 |} ]).
Proof.
  apply (chunk_within_total _ (s "foo.js") 150); [|reflexivity].
  repeat constructor; by vm_compute.
Defined.

Lemma scan_step_size (m : gmap str Z) (e : dirent) :
  (size (scan_step m e) <= size m + (if is_counted e then 1 else 0))%nat.
Proof.
  destruct (is_counted e) eqn:Hc.
  - unfold is_counted in Hc. unfold scan_step.
    destruct (tracked (d_name e)); [|done]. simpl.
    destruct (d_kind e); [|done].
    rewrite map_size_insert. destruct (_ !! _); simpl; unfold id; lia.
  - rewrite scan_step_skipped by done. lia.
Qed.

Lemma fold_scan_size (l : list dirent) (m : gmap str Z) :
  (size (fold_left scan_step l m) <=
   size m + length (List.filter is_counted l))%nat.
Proof.
  revert m; induction l as [|e l IH]; intros m; simpl; [lia|].
  etrans; [apply IH|]. pose proof (scan_step_size m e).
  destruct (is_counted e); simpl; lia.
Qed.

(** X14: the number of chunks printed by a run is at most the number of tracked
    regular files, and no chunk is recorded for a directory without such
    files. *)
Theorem chunk_count_bound (entries : list dirent) :
  (size (scan entries) <= length (List.filter is_counted entries))%nat.
Proof.
  unfold scan. etrans; [apply fold_scan_size|].
  by rewrite map_size_empty.
Qed.

Lemma existsb_app_or {A} (f : A -> bool) (l1 l2 : list A) :
  existsb f (l1 ++ l2) = existsb f l1 || existsb f l2.
Proof. induction l1 as [|x l1 IH]; simpl; [done|]. by rewrite IH, orb_assoc. Qed.

Lemma bytes_of_identity_app (k : str) (l1 l2 : list dirent) :
  bytes_of_identity k (l1 ++ l2) =
  bytes_of_identity k l1 + bytes_of_identity k l2.
Proof.
  induction l1 as [|e l1 IH]; simpl.
  - unfold bytes_of_identity at 2. simpl. lia.
  - rewrite !bytes_of_identity_cons, IH. lia.
Qed.

(** X15: scanning two listings one after the other gives, identity by identity,
    the sum of what each listing gives alone. *)
Theorem scan_app (l1 l2 : list dirent) :
  scan (l1 ++ l2) = union_with (fun a b => Some (a + b)) (scan l1) (scan l2).
Proof.
  apply map_eq. intros k. rewrite lookup_union_with, !scan_lookup_eq.
  rewrite existsb_app_or, bytes_of_identity_app.
  destruct (existsb (of_identity k) l1) eqn:E1;
    destruct (existsb (of_identity k) l2) eqn:E2; simpl; try done.
  - rewrite (bytes_of_identity_none k l2 E2). f_equal. lia.
  - rewrite (bytes_of_identity_none k l1 E1). f_equal.
Qed.
End BaselineMore.

(* ===================================================================== *)
(** * Further properties of the report summariser                         *)
(* ===================================================================== *)

Section SummaryMore.
Import ReportSummarizer.

Section Stability.
Context {A : Type} (key : A -> Z).

Lemma filter_insert_desc (d : Z) (x : A) (l : list A) :
  List.filter (fun z => key z =? d) (insert_desc key x l) =
  List.filter (fun z => key z =? d) (x :: l).
Proof.
  induction l as [|y l IH]; [done|].
  cbn [insert_desc]. destruct (Z.ltb_spec (key x) (key y)); [|done].
  cbn [List.filter] in *. rewrite IH.
  destruct (Z.eqb_spec (key x) d), (Z.eqb_spec (key y) d); try done. lia.
Qed.

Lemma filter_sort_desc (d : Z) (l : list A) :
  List.filter (fun z => key z =? d) (sort_desc key l) =
  List.filter (fun z => key z =? d) l.
Proof.
  induction l as [|x l IH]; [done|].
  cbn [sort_desc foldr]. rewrite filter_insert_desc.
  cbn [List.filter]. fold (sort_desc key l). by rewrite IH.
Qed.

Lemma sorted_take_drop (n : nat) (l : list A) :
  StronglySorted (descending key) l ->
  Forall (fun x => Forall (fun y => key y <= key x) (drop n l)) (take n l).
Proof.
  intros Hl; revert n; induction Hl as [|x l Hl IH Hx]; intros [|n]; simpl;
    try constructor.
  - apply Forall_drop. exact Hx.
  - apply IH.
Qed.
End Stability.

(** X16: the sort is stable: the failing chunks of one absolute delta [d] are
    listed in the order in which the report document has them. *)
Theorem equal_deltas_keep_document_order (r : report) (d : Z) :
  List.filter (fun x => abs_delta x =? d) (failing_chunks r) =
  List.filter (fun x => abs_delta x =? d) (failing_in_order r).
Proof. apply filter_sort_desc. Qed.

(** X17: a failing chunk that is left out by the cut at 50 has an absolute
    byte delta [|currentBytes - baselineBytes|] that is at most that of
    every chunk within the cut. *)
Theorem unprinted_chunks_rank_lower (r : report) :
  Forall (fun x =>
            Forall (fun y =>
                      Z.abs (default 0 (currentBytes y.2) -
                             default 0 (baselineBytes y.2)) <=
                      Z.abs (default 0 (currentBytes x.2) -
                             default 0 (baselineBytes x.2)))
                   (drop 50 (failing_chunks r)))
         (take 50 (failing_chunks r)).
Proof. apply (sorted_take_drop abs_delta), sort_desc_sorted. Qed.


End SummaryMore.
